(** * Shallow embedding of the chat client in [script.js]

    The page state (the [messages] array, [userName], the input element and
    the chat window) is threaded explicitly through a small state and
    exception monad; the [submit] handler of [chatForm] is one action of that
    monad.  Text is modelled as ASCII byte strings. *)

From Stdlib Require Import String Ascii List ZArith Bool Lia.
Import ListNotations.
Open Scope string_scope.
Open Scope list_scope.

(** ** Characters

    A JS string is modelled by its UTF-8 bytes.  [trim] and the regex work
    on characters, so the bytes are first split into characters: one
    [uchar] is the byte sequence of one code point.  Every character the
    code tests (whitespace, [\w], the letters of the regex) is a single
    UTF-16 code unit, so a code point outside the BMP (two code units in
    JS) is, like them, neither whitespace nor a word character. *)

Definition code (c : ascii) : nat := nat_of_ascii c.

Definition uchar := list ascii.

(** Length of the UTF-8 sequence introduced by a lead byte. *)
Definition utf8_len (b : ascii) : nat :=
  let n := code b in
  if (n <? 192)%nat then 1
  else if (n <? 224)%nat then 2
  else if (n <? 240)%nat then 3
  else if (n <? 248)%nat then 4
  else 1.

Fixpoint chars_aux (fuel : nat) (l : list ascii) : list uchar :=
  match fuel, l with
  | O, _ => []
  | _, [] => []
  | S f, b :: _ => firstn (utf8_len b) l :: chars_aux f (skipn (utf8_len b) l)
  end.

(** The characters of a byte string. *)
Definition chars (l : list ascii) : list uchar := chars_aux (length l) l.

(** [WhiteSpace] and [LineTerminator] of ECMAScript, used by both
    [String.prototype.trim] and [\s]: TAB, LF, VT, FF, CR, SPACE, U+00A0,
    U+1680, U+2000-U+200A, U+2028, U+2029, U+202F, U+205F, U+3000 and
    U+FEFF, each by its UTF-8 bytes. *)
Definition is_ws (ch : uchar) : bool :=
  match map code ch with
  | [n] => ((9 <=? n) && (n <=? 13))%nat || (n =? 32)%nat
  | [194; 160] => true
  | [225; 154; 128] => true
  | [226; 128; n] =>
      ((128 <=? n) && (n <=? 138))%nat || (n =? 168)%nat || (n =? 169)%nat
      || (n =? 175)%nat
  | [226; 129; 159] => true
  | [227; 128; 128] => true
  | [239; 187; 191] => true
  | _ => false
  end.

(** Case-insensitive canonicalisation of the regex engine (non-unicode
    mode): [toUpperCase] on ASCII letters.  A non-ASCII character never
    canonicalises to an ASCII one, so it matches no ASCII literal or class. *)
Definition canonicalize (c : ascii) : ascii :=
  let n := code c in
  if ((97 <=? n) && (n <=? 122))%nat then ascii_of_nat (n - 32) else c.

(** [\w]: [A-Za-z0-9_] on one byte. *)
Definition is_word_byte (c : ascii) : bool :=
  let n := code c in
  ((48 <=? n) && (n <=? 57))%nat || ((65 <=? n) && (n <=? 90))%nat
  || ((97 <=? n) && (n <=? 122))%nat || (n =? 95)%nat.

Definition is_word_char (ch : uchar) : bool :=
  match ch with [c] => is_word_byte c | _ => false end.

(** A class [[lo-hi]] (ASCII bounds) under the [i] flag: [c] matches when
    its canonical form is the canonical form of some member of the range. *)
Definition class_range_ci (lo hi : nat) (ch : uchar) : bool :=
  match ch with
  | [c] => existsb (fun k => Ascii.eqb (canonicalize (ascii_of_nat k)) (canonicalize c))
                   (seq lo (S hi - lo))
  | _ => false
  end.

Definition class_A_Z : uchar -> bool := class_range_ci 65 90.
Definition class_a_z : uchar -> bool := class_range_ci 97 122.

(** An ASCII literal character against a text character, under [i]. *)
Definition char_eq_ci (a : ascii) (ch : uchar) : bool :=
  match ch with [c] => Ascii.eqb (canonicalize a) (canonicalize c) | _ => false end.

(** ** [String.prototype.trim] *)

Fixpoint drop_ws (l : list uchar) : list uchar :=
  match l with
  | c :: t => if is_ws c then drop_ws t else l
  | [] => []
  end.

Definition trim_chars (l : list uchar) : list uchar :=
  rev (drop_ws (rev (drop_ws l))).

Definition trim (s : string) : string :=
  string_of_list_ascii (concat (trim_chars (chars (list_ascii_of_string s)))).

(** ** The name regex [/\b(?:my name is|i'm|i am)\s+([A-Z][a-z]+)\b/i]

    A backtracking matcher over the characters of the text: each piece takes
    a continuation that receives the character consumed just before the
    remaining input ([prev]) and the remaining input, and may fail so that
    the piece tries its next choice. *)

Section Matcher.
Context {A : Type}.

(** [\b] between [prev] and the head of [l]. *)
Definition word_boundary (prev : option uchar) (l : list uchar) : bool :=
  let w1 := match prev with Some c => is_word_char c | None => false end in
  let w2 := match l with c :: _ => is_word_char c | [] => false end in
  negb (Bool.eqb w1 w2).

(** A literal under the [i] flag. *)
Fixpoint lit_ci (p : list ascii) (prev : option uchar) (l : list uchar)
  (k : option uchar -> list uchar -> option A) : option A :=
  match p, l with
  | [], _ => k prev l
  | x :: p', c :: l' => if char_eq_ci x c then lit_ci p' (Some c) l' k else None
  | _ :: _, [] => None
  end.

(** Greedy [X*] for a one-character class [X], collecting the consumed
    characters: longest first, then backtracking one character at a time. *)
Fixpoint star (cls : uchar -> bool) (acc : list uchar) (prev : option uchar)
  (l : list uchar) (k : list uchar -> option uchar -> list uchar -> option A)
  : option A :=
  match l with
  | c :: l' =>
      if cls c then
        match star cls (acc ++ [c]) (Some c) l' k with
        | Some r => Some r
        | None => k acc prev l
        end
      else k acc prev l
  | [] => k acc prev l
  end.

(** Greedy [X+] = [X X*]. *)
Definition plus (cls : uchar -> bool) (prev : option uchar) (l : list uchar)
  (k : list uchar -> option uchar -> list uchar -> option A) : option A :=
  match l with
  | c :: l' => if cls c then star cls [c] (Some c) l' k else None
  | [] => None
  end.

End Matcher.

Definition alternatives : list string := ["my name is"; "i'm"; "i am"].

(** [\s+([A-Z][a-z]+)\b] after the phrase; returns capture group 1. *)
Definition after_phrase (prev : option uchar) (l : list uchar) : option string :=
  plus is_ws prev l (fun _ prev1 l1 =>
    match l1 with
    | c :: l2 =>
        if class_A_Z c then
          plus class_a_z (Some c) l2 (fun rest prev3 l3 =>
            if word_boundary prev3 l3
            then Some (string_of_list_ascii (concat (c :: rest))) else None)
        else None
    | [] => None
    end).

(** The alternation, tried in source order. *)
Fixpoint try_alts (alts : list string) (prev : option uchar) (l : list uchar)
  : option string :=
  match alts with
  | [] => None
  | a :: alts' =>
      match lit_ci (list_ascii_of_string a) prev l after_phrase with
      | Some r => Some r
      | None => try_alts alts' prev l
      end
  end.

(** An attempt at one start position: [\b] then the alternation. *)
Definition match_at (prev : option uchar) (l : list uchar) : option string :=
  if word_boundary prev l then try_alts alternatives prev l else None.

(** Leftmost match: start positions scanned left to right. *)
Fixpoint search (prev : option uchar) (l : list uchar) : option string :=
  match match_at prev l with
  | Some r => Some r
  | None =>
      match l with
      | c :: l' => search (Some c) l'
      | [] => None
      end
  end.

(** [text.match(re)], reduced to [nameMatch[1]] when it matches. *)
Definition nameMatch (text : string) : option string :=
  search None (chars (list_ascii_of_string text)).

(** U+00A0 and U+2003 by their UTF-8 bytes. *)
Definition nbsp : string := String (ascii_of_nat 194) (String (ascii_of_nat 160) EmptyString).
Definition emsp : string :=
  String (ascii_of_nat 226) (String (ascii_of_nat 128) (String (ascii_of_nat 131) EmptyString)).

Example nameMatch_alex :
  nameMatch "My name is Alex, what shampoo should I use?" = Some "Alex".
Proof. reflexivity. Qed.
Example nameMatch_bob : nameMatch "hi, my name is bob" = Some "bob".
Proof. reflexivity. Qed.
Example nameMatch_im : nameMatch "I'm   Sara." = Some "Sara".
Proof. reflexivity. Qed.
Example nameMatch_digit : nameMatch "I am Sara2" = None.
Proof. reflexivity. Qed.
Example nameMatch_word : nameMatch "Siam Jo" = None.
Proof. reflexivity. Qed.
Example nameMatch_nbsp : nameMatch ("my name is" ++ nbsp ++ "Bob") = Some "Bob".
Proof. reflexivity. Qed.
Example nameMatch_nbsp_first :
  nameMatch ("I am" ++ nbsp ++ "Sam and my name is Bob") = Some "Sam".
Proof. reflexivity. Qed.
Example nameMatch_accent : nameMatch "I'm Zoé" = Some "Zo".
Proof. reflexivity. Qed.
Example trim_ex : trim "  hi there  " = "hi there".
Proof. reflexivity. Qed.
Example trim_nbsp : trim nbsp = "".
Proof. reflexivity. Qed.
Example trim_unicode : trim (nbsp ++ "Hi" ++ emsp) = "Hi".
Proof. reflexivity. Qed.
Example trim_keeps_inner : trim (" a" ++ nbsp ++ "b ") = ("a" ++ nbsp ++ "b")%string.
Proof. reflexivity. Qed.

(** ** Page state *)

Record turn := mkTurn { role : string; content : string }.

(** Elements of [#chatWindow]. *)
Inductive item :=
  | Bubble (className : string) (name : option string) (text : string)
  | LatestQuestion (text : string)
  | Thinking (id : nat).

(** A [fetch] call as issued: URL, method, [Authorization] header and the
    fields of the JSON body. *)
Record request := mkRequest {
  req_url : string;
  req_method : string;
  req_authorization : string;
  req_model : string;
  req_messages : list turn;
  req_max_tokens : Z
}.

(** [resp.json()] result: [data?.choices?.[0]?.message?.content] needs
    [data] (possibly [null]), its [choices], their first [message] and its
    [content] (possibly missing or [null]). *)
Record message := mkMessage { msg_content : option string }.
Record choice := mkChoice { choice_message : option message }.
Record data := mkData { choices : option (list choice) }.

Inductive json_body :=
  | JsonParseError (msg : string)
  | JsonValue (d : option data).

(** Outcome of one [fetch]: rejected, or a response with its status, its
    [text()] and its [json()]. *)
Inductive fetch_result :=
  | NetworkError (msg : string)
  | Response (status : Z) (body_text : string) (body_json : json_body).

Record state := mkState {
  messages : list turn;
  userName : option string;
  inputValue : string;
  inputDisabled : bool;
  chatWindow : list item;
  sent : list request;
  nextId : nat
}.

(** ** State and exception monad: a thrown [Error] carries its [message]. *)

Definition M (X : Type) := state -> state * (string + X).

Definition ret {X} (x : X) : M X := fun s => (s, inr x).
Definition bind {X Y} (m : M X) (f : X -> M Y) : M Y :=
  fun s => match m s with
           | (s', inl e) => (s', inl e)
           | (s', inr x) => f x s'
           end.
Definition throw {X} (msg : string) : M X := fun s => (s, inl msg).
Definition get : M state := fun s => (s, inr s).
Definition modify (f : state -> state) : M unit := fun s => (f s, inr tt).

(** [try { m } catch (err) { h(err.message) }] *)
Definition try_catch {X} (m : M X) (h : string -> M X) : M X :=
  fun s => match m s with
           | (s', inl e) => h e s'
           | r => r
           end.

(** [try { m } finally { f }]: [f] runs on every exit of [m]. *)
Definition try_finally {X} (m : M X) (f : M unit) : M X :=
  fun s => match m s with
           | (s', r) =>
               match f s' with
               | (s'', inl e) => (s'', inl e)
               | (s'', inr _) => (s'', r)
               end
           end.

Notation "x <- m1 ;; m2" := (bind m1 (fun x => m2))
  (at level 61, m1 at next level, right associativity).
Notation "m1 ;;; m2" := (bind m1 (fun _ => m2))
  (at level 61, right associativity).

(** ** Primitive mutations *)

Definition set_messages (ms : list turn) (s : state) : state :=
  mkState ms (userName s) (inputValue s) (inputDisabled s) (chatWindow s)
          (sent s) (nextId s).
Definition set_userName (n : option string) (s : state) : state :=
  mkState (messages s) n (inputValue s) (inputDisabled s) (chatWindow s)
          (sent s) (nextId s).
Definition set_inputValue (v : string) (s : state) : state :=
  mkState (messages s) (userName s) v (inputDisabled s) (chatWindow s)
          (sent s) (nextId s).
Definition set_inputDisabled (b : bool) (s : state) : state :=
  mkState (messages s) (userName s) (inputValue s) b (chatWindow s)
          (sent s) (nextId s).
Definition set_chatWindow (w : list item) (s : state) : state :=
  mkState (messages s) (userName s) (inputValue s) (inputDisabled s) w
          (sent s) (nextId s).
Definition set_sent (r : list request) (s : state) : state :=
  mkState (messages s) (userName s) (inputValue s) (inputDisabled s)
          (chatWindow s) r (nextId s).
Definition set_nextId (n : nat) (s : state) : state :=
  mkState (messages s) (userName s) (inputValue s) (inputDisabled s)
          (chatWindow s) (sent s) n.

(** [messages.push(t)] *)
Definition push (t : turn) : M unit :=
  modify (fun s => set_messages (messages s ++ [t]) s).

(** [chatWindow.appendChild(x)] *)
Definition appendChild (x : item) : M unit :=
  modify (fun s => set_chatWindow (chatWindow s ++ [x]) s).

(** [appendMessage(text, className, meta)] *)
Definition appendMessage (text className : string) (name : option string)
  : M unit :=
  appendChild (Bubble className name text).

Definition is_latest_question (x : item) : bool :=
  match x with LatestQuestion _ => true | _ => false end.

(** Removes the first element satisfying [p] ([querySelector] + [remove]). *)
Fixpoint remove_first (p : item -> bool) (w : list item) : list item :=
  match w with
  | [] => []
  | x :: w' => if p x then w' else x :: remove_first p w'
  end.

(** [showLatestQuestion(text)] *)
Definition showLatestQuestion (text : string) : M unit :=
  modify (fun s => set_chatWindow (remove_first is_latest_question
                                                (chatWindow s)) s) ;;;
  appendChild (LatestQuestion ("Latest question: " ++ text)).

Definition is_thinking (id : nat) (x : item) : bool :=
  match x with Thinking j => Nat.eqb j id | _ => false end.

(** [thinking.remove()]; removing a detached node does nothing. *)
Definition remove_thinking (id : nat) : M unit :=
  modify (fun s => set_chatWindow (remove_first (is_thinking id)
                                                (chatWindow s)) s).

(** A fresh [div.thinking] node. *)
Definition create_thinking : M nat :=
  s <- get ;; modify (set_nextId (S (nextId s))) ;;; ret (nextId s).

(** ** Constants of the script *)

Definition dq : string := String (ascii_of_nat 34) EmptyString.

(** [SYSTEM_PROMPT] (UTF-8 bytes; [dq] is the double quote character). *)
Definition SYSTEM_PROMPT : string :=
  "You are a helpful assistant that ONLY answers questions about L'Oréal products, routines, and related beauty topics (skincare, haircare, makeup, product recommendations, ingredients, usage, and routines). Always be concise, accurate, and polite. Ask clarifying questions when needed. If a user asks anything unrelated to L'Oréal or general beauty topics, politely refuse with: "
  ++ dq ++ "Sorry — I can only help with L'Oréal products, routines, and related beauty questions." ++ dq
  ++ " Do not provide medical, legal, or diagnostic advice; instead direct users to consult a qualified professional.".

Definition initialText : string :=
  "👋 Hello! How can I help you with L'Oréal products or routines today?".

Definition API_URL : string := "https://api.openai.com/v1/chat/completions".

(** [OPENAI_API_KEY] as defined by [secrets.js], [None] when undefined. *)
Definition OPENAI_KEY_PRESENT (key : option string) : bool :=
  match key with
  | Some k => negb (String.eqb k "")
  | None => false
  end.

Definition key_missing_message : string :=
  "OpenAI API key not found. Create secrets.js and define OPENAI_API_KEY.".

Definition no_content_message : string := "No content in API response.".

(** [resp.ok]: status in [200, 299]. *)
Definition resp_ok (status : Z) : bool := (200 <=? status)%Z && (status <=? 299)%Z.

(** Decimal rendering of an integer, as in a template literal. *)
Fixpoint digits (fuel : nat) (n : Z) (acc : string) : string :=
  match fuel with
  | O => acc
  | S f =>
      let acc' := String (ascii_of_nat (48 + Z.to_nat (n mod 10))) acc in
      if (n / 10 =? 0)%Z then acc' else digits f (n / 10) acc'
  end.

Arguments digits : simpl never.

Definition Z_to_string (z : Z) : string :=
  if (z <? 0)%Z then "-" ++ digits 64 (- z) "" else digits 64 z "".

Example Z_to_string_500 : Z_to_string 500 = "500".
Proof. reflexivity. Qed.

(** [data?.choices?.[0]?.message?.content] *)
Definition aiContent (d : option data) : option string :=
  match d with
  | Some dt =>
      match choices dt with
      | Some (c :: _) =>
          match choice_message c with
          | Some m => msg_content m
          | None => None
          end
      | _ => None
      end
  | None => None
  end.

(** [!aiContent] for a string, [null] or [undefined]. *)
Definition falsy (v : option string) : bool :=
  match v with
  | Some c => String.eqb c ""
  | None => true
  end.

(** The [fetch] call of the handler; [ms] is the [messages] array at the
    time of the call, serialised by [JSON.stringify]. *)
Definition make_request (key : option string) (ms : list turn) : request :=
  mkRequest API_URL "POST"
    ("Bearer " ++ match key with Some k => k | None => "undefined" end)
    "gpt-4o" ms 600.

(** [await fetch(...)]: the request is recorded as sent, and the
    environment [net] decides the outcome. *)
Definition fetch (net : request -> fetch_result) (r : request)
  : M fetch_result :=
  modify (fun s => set_sent (sent s ++ [r]) s) ;;; ret (net r).

(** ** Load time *)

(** [messages] starts with the system prompt; then the greeting is shown and
    pushed. *)
Definition init_state : state :=
  mkState [mkTurn "system" SYSTEM_PROMPT; mkTurn "assistant" initialText]
          None "" false [Bubble "ai" None initialText] [] 0.

(** ** The submit handler *)

(** The [try] block, lines 110-147. *)
Definition try_block (key : option string) (net : request -> fetch_result)
  (thinking : nat) : M unit :=
  if negb (OPENAI_KEY_PRESENT key) then throw key_missing_message else
  s <- get ;;
  resp <- fetch net (make_request key (messages s)) ;;
  match resp with
  | NetworkError m => throw m
  | Response status errText body =>
      if negb (resp_ok status)
      then throw ("API error: " ++ Z_to_string status ++ " " ++ errText)
      else
        match body with
        | JsonParseError m => throw m
        | JsonValue d =>
            match aiContent d with
            | Some c =>
                if falsy (Some c) then throw no_content_message else
                remove_thinking thinking ;;;
                appendMessage c "ai" None ;;;
                push (mkTurn "assistant" c)
            | None => throw no_content_message
            end
        end
  end.

(** The [catch] block, lines 148-151. *)
Definition catch_block (thinking : nat) (msg : string) : M unit :=
  remove_thinking thinking ;;;
  appendMessage ("Error: " ++ msg) "ai" None.

(** The [finally] block, lines 152-155. *)
Definition finally_block : M unit := modify (set_inputDisabled false).

(** Lines 84-90: the name heuristic. *)
Definition capture_name (text : string) : M unit :=
  match nameMatch text with
  | Some n =>
      modify (set_userName (Some n)) ;;;
      push (mkTurn "system" ("User's name is " ++ n ++ "."))
  | None => ret tt
  end.

(** The listener of [chatForm]'s [submit] event. *)
Definition on_submit (key : option string) (net : request -> fetch_result)
  : M unit :=
  s0 <- get ;;
  let text := trim (inputValue s0) in
  if String.eqb text "" then ret tt else
  capture_name text ;;;
  s1 <- get ;;
  appendMessage text "user"
    (Some match userName s1 with Some n => n | None => "You" end) ;;;
  push (mkTurn "user" text) ;;;
  modify (set_inputValue "") ;;;
  modify (set_inputDisabled true) ;;;
  showLatestQuestion text ;;;
  thinking <- create_thinking ;;
  appendChild (Thinking thinking) ;;;
  try_finally (try_catch (try_block key net thinking) (catch_block thinking))
              finally_block.

(** One submission with text [v] typed into the input. *)
Definition submit (key : option string) (net : request -> fetch_result)
  (v : string) (s : state) : state :=
  fst (on_submit key net (set_inputValue v s)).

(** States of the page: load, then any sequence of submissions. *)
Inductive reachable : state -> Prop :=
  | reachable_init : reachable init_state
  | reachable_submit key net v s :
      reachable s -> reachable (submit key net v s).

(** A mocked completion service answering [c]. *)
Definition reply_with (c : string) (_ : request) : fetch_result :=
  Response 200 "" (JsonValue (Some (mkData (Some [mkChoice (Some (mkMessage (Some c)))])))).

Example scenario_A :
  messages (submit (Some "sk") (reply_with "Hi there!") "Hello" init_state)
  = messages init_state ++ [mkTurn "user" "Hello"; mkTurn "assistant" "Hi there!"].
Proof. reflexivity. Qed.

(** ** Derived views of one cycle *)

(** The system note pushed by the name heuristic, if any. *)
Definition name_turns (text : string) : list turn :=
  match nameMatch text with
  | Some n => [mkTurn "system" ("User's name is " ++ n ++ ".")]
  | None => []
  end.

(** [messages] right before the [try] block. *)
Definition pre_messages (s : state) (text : string) : list turn :=
  messages s ++ name_turns text ++ [mkTurn "user" text].

(** The whole page state right before the [try] block. *)
Definition pre_state (v : string) (s : state) : state :=
  let t := trim v in
  let un := match nameMatch t with Some n => Some n | None => userName s end in
  mkState (pre_messages s t) un "" true
    (remove_first is_latest_question
       (chatWindow s ++ [Bubble "user" (Some match un with Some n => n | None => "You" end) t])
     ++ [LatestQuestion ("Latest question: " ++ t); Thinking (nextId s)])
    (sent s) (S (nextId s)).

(** The error the [try] block throws for a given outcome of [fetch] (the
    outcome is not consulted when the key is missing), or [None] when it
    completes. *)
Definition error_of (key : option string) (r : fetch_result) : option string :=
  if negb (OPENAI_KEY_PRESENT key) then Some key_missing_message else
  match r with
  | NetworkError m => Some m
  | Response status errText body =>
      if negb (resp_ok status)
      then Some ("API error: " ++ Z_to_string status ++ " " ++ errText)%string
      else
        match body with
        | JsonParseError m => Some m
        | JsonValue d => if falsy (aiContent d) then Some no_content_message else None
        end
  end.

Definition substring (x m : string) : Prop := exists p q : string, m = (p ++ x ++ q)%string.

Definition is_ai_bubble (x : item) : bool :=
  match x with Bubble c _ _ => String.eqb c "ai" | _ => false end.

(** Equations of the monad, used to run the handler symbolically. *)
Lemma bind_get {X} (k : state -> M X) s : bind get k s = k s s.
Proof. reflexivity. Qed.
Lemma bind_modify {X} f (k : unit -> M X) s : bind (modify f) k s = k tt (f s).
Proof. reflexivity. Qed.
Lemma bind_ret {X Y} (x : X) (k : X -> M Y) s : bind (ret x) k s = k x s.
Proof. reflexivity. Qed.
Lemma bind_throw {X Y} m (k : X -> M Y) s : bind (throw m) k s = (s, inl m).
Proof. reflexivity. Qed.
Lemma bind_assoc {X Y Z} (m : M X) (f : X -> M Y) (g : Y -> M Z) s :
  bind (bind m f) g s = bind m (fun x => bind (f x) g) s.
Proof. unfold bind. destruct (m s) as [s' [e|x]]; reflexivity. Qed.

Create Rewrite HintDb monad.
#[global] Hint Rewrite @bind_get @bind_modify @bind_ret @bind_throw @bind_assoc
  : monad.

Lemma submit_empty (key : option string) net v s :
  trim v = "" -> submit key net v s = set_inputValue v s.
Proof.
  intros H. cbv [submit on_submit bind get ret]. simpl. rewrite H. reflexivity.
Qed.

Ltac proj := cbn beta iota zeta delta [messages userName inputValue inputDisabled
  chatWindow sent nextId set_messages set_userName set_inputValue
  set_inputDisabled set_chatWindow set_nextId fst snd].

Lemma submit_nonempty (key : option string) net v s :
  trim v <> "" ->
  submit key net v s =
  fst (try_finally (try_catch (try_block key net (nextId s)) (catch_block (nextId s)))
                   finally_block (pre_state v s)).
Proof.
  intros H. apply String.eqb_neq in H.
  unfold submit, on_submit. rewrite bind_get. proj. rewrite H.
  unfold capture_name, pre_state, pre_messages, name_turns.
  destruct (nameMatch (trim v)) as [n|];
    unfold push, appendMessage, showLatestQuestion, appendChild, create_thinking;
    autorewrite with monad; proj; rewrite <- ?app_assoc; reflexivity.
Qed.

(** The reply text of a completed cycle. *)
Definition reply_of (r : fetch_result) : string :=
  match r with
  | Response _ _ (JsonValue d) => match aiContent d with Some c => c | None => "" end
  | _ => ""
  end.

(** The [try]/[catch]/[finally] part of the handler, run from any state [P]:
    the request (sent only when the key is present) and then either the
    error path or the reply path. *)
Lemma run_try (key : option string) net id P :
  fst (try_finally (try_catch (try_block key net id) (catch_block id))
                   finally_block P) =
  let r := make_request key (messages P) in
  let P1 := if OPENAI_KEY_PRESENT key then set_sent (sent P ++ [r]) P else P in
  match error_of key (net r) with
  | Some msg =>
      set_inputDisabled false
        (set_chatWindow (remove_first (is_thinking id) (chatWindow P1)
                         ++ [Bubble "ai" None ("Error: " ++ msg)]) P1)
  | None =>
      set_inputDisabled false
        (set_messages (messages P1 ++ [mkTurn "assistant" (reply_of (net r))])
          (set_chatWindow (remove_first (is_thinking id) (chatWindow P1)
                           ++ [Bubble "ai" None (reply_of (net r))]) P1))
  end.
Proof.
  unfold error_of, try_block.
  destruct (OPENAI_KEY_PRESENT key); cbn [negb].
  2:{ reflexivity. }
  cbv [try_finally try_catch fetch bind get modify ret throw].
  cbn beta iota zeta delta [messages sent set_sent].
  destruct (net (make_request key (messages P))) as [m|status errText body].
  - reflexivity.
  - destruct (negb (resp_ok status)). reflexivity.
    destruct body as [m|d]. reflexivity.
    unfold reply_of. destruct (aiContent d) as [c|]; cbn [falsy].
    + destruct (String.eqb c ""); reflexivity.
    + reflexivity.
Qed.

Lemma messages_pre_state v s : messages (pre_state v s) = pre_messages s (trim v).
Proof. reflexivity. Qed.

(** One non-empty submission, end to end. *)
Lemma submit_cycle (key : option string) net v s :
  trim v <> "" ->
  submit key net v s =
  let P := pre_state v s in
  let r := make_request key (pre_messages s (trim v)) in
  let P1 := if OPENAI_KEY_PRESENT key then set_sent (sent P ++ [r]) P else P in
  match error_of key (net r) with
  | Some msg =>
      set_inputDisabled false
        (set_chatWindow (remove_first (is_thinking (nextId s)) (chatWindow P1)
                         ++ [Bubble "ai" None ("Error: " ++ msg)]) P1)
  | None =>
      set_inputDisabled false
        (set_messages (messages P1 ++ [mkTurn "assistant" (reply_of (net r))])
          (set_chatWindow (remove_first (is_thinking (nextId s)) (chatWindow P1)
                           ++ [Bubble "ai" None (reply_of (net r))]) P1))
  end.
Proof.
  intros H. rewrite submit_nonempty by exact H. rewrite run_try.
  rewrite messages_pre_state. reflexivity.
Qed.

Lemma error_of_none_reply (key : option string) r :
  error_of key r = None -> reply_of r <> "".
Proof.
  unfold error_of, reply_of.
  destruct (OPENAI_KEY_PRESENT key); cbn [negb]; [|discriminate].
  destruct r as [m|status t [m|d]]; try discriminate;
    destruct (negb (resp_ok status)); try discriminate.
  destruct (aiContent d) as [c|]; cbn [falsy]; [|discriminate].
  destruct (String.eqb c "") eqn:E; [discriminate|].
  intros _ Hc. subst c. discriminate.
Qed.

Lemma messages_if_sent (key : option string) P r :
  messages (if OPENAI_KEY_PRESENT key then set_sent (sent P ++ [r]) P else P)
  = messages P.
Proof. destruct (OPENAI_KEY_PRESENT key); reflexivity. Qed.

(** Every submission only appends to [messages]; what it appends is the
    optional name note, the user turn and an optional non-empty reply. *)
Lemma submit_appends (key : option string) net v s :
  (trim v = "" /\ submit key net v s = set_inputValue v s) \/
  exists tail, trim v <> "" /\
    messages (submit key net v s) = pre_messages s (trim v) ++ tail /\
    (tail = [] \/ exists c, c <> "" /\ tail = [mkTurn "assistant" c]).
Proof.
  destruct (String.eqb (trim v) "") eqn:E.
  - left. apply String.eqb_eq in E. split; [exact E|]. now apply submit_empty.
  - right. apply String.eqb_neq in E. rewrite submit_cycle by exact E.
    cbv zeta.
    destruct (error_of key (net (make_request key (pre_messages s (trim v)))))
      as [msg|] eqn:Er.
    + exists []. split; [exact E|]. split; [|left; reflexivity]. rewrite app_nil_r.
      cbn [messages set_inputDisabled set_chatWindow].
      rewrite messages_if_sent. reflexivity.
    + eexists. split; [exact E|]. split.
      * cbn [messages set_inputDisabled set_chatWindow set_messages].
        rewrite messages_if_sent. reflexivity.
      * right. eexists. split; [|reflexivity]. eapply error_of_none_reply; eauto.
Qed.

Lemma remove_first_ai_bubbles p w :
  (forall x, p x = true -> is_ai_bubble x = false) ->
  filter is_ai_bubble (remove_first p w) = filter is_ai_bubble w.
Proof.
  intros Hp. induction w as [|x w IH]; [reflexivity|].
  cbn [remove_first]. destruct (p x) eqn:E.
  - cbn [filter]. rewrite (Hp x E). reflexivity.
  - cbn [filter]. rewrite IH. reflexivity.
Qed.

Lemma chatWindow_if_sent (key : option string) P r :
  chatWindow (if OPENAI_KEY_PRESENT key then set_sent (sent P ++ [r]) P else P)
  = chatWindow P.
Proof. destruct (OPENAI_KEY_PRESENT key); reflexivity. Qed.

Lemma nameMatch_empty : nameMatch "" = None.
Proof. reflexivity. Qed.

(** ** The claims *)

(** C1 (as stated, refuted).  The claim: on a failed submission an
    assistant-role Turn carrying the error is appended to the Transcript.
    With no key and input ["Hi"], [messages] ends with the user turn and
    nothing follows it. *)
Lemma C1_error_not_in_transcript :
  messages (submit None (fun _ => NetworkError "Failed to fetch") "Hi" init_state)
  = messages init_state ++ [mkTurn "user" "Hi"] /\
  ~ (exists e, messages (submit None (fun _ => NetworkError "Failed to fetch") "Hi" init_state)
               = messages init_state ++ [mkTurn "user" "Hi"; mkTurn "assistant" e]).
Proof.
  assert (H : messages (submit None (fun _ => NetworkError "Failed to fetch") "Hi" init_state)
              = messages init_state ++ [mkTurn "user" "Hi"]) by reflexivity.
  split; [exact H|]. intros [e He]. rewrite H in He.
  apply (f_equal (@length turn)) in He. rewrite !length_app in He.
  cbn [length] in He. lia.
Qed.

(** C1 (amended).  When a non-empty submission fails (any error raised in
    the [try] block: missing key, rejected [fetch], non-success status,
    unparsable body, missing or empty content), [messages] ends with the
    submission's user turn and nothing else is appended to it; the error is
    shown instead as exactly one new ["ai"] bubble ["Error: " ++ msg], the
    last element of the chat window. *)
Theorem C1_failure_path (key : option string) net v s msg :
  trim v <> "" ->
  error_of key (net (make_request key (pre_messages s (trim v)))) = Some msg ->
  messages (submit key net v s) = pre_messages s (trim v) /\
  (exists w, chatWindow (submit key net v s) = w ++ [Bubble "ai" None ("Error: " ++ msg)]) /\
  length (filter is_ai_bubble (chatWindow (submit key net v s)))
  = S (length (filter is_ai_bubble (chatWindow s))).
Proof.
  intros Hne Herr. rewrite submit_cycle by exact Hne. cbv zeta. rewrite Herr.
  cbn [messages chatWindow set_inputDisabled set_chatWindow].
  rewrite messages_if_sent, chatWindow_if_sent. split; [reflexivity|].
  split; [eexists; reflexivity|].
  rewrite filter_app, length_app, remove_first_ai_bubbles
    by (intros [] ?; cbn in *; congruence).
  cbn [pre_state chatWindow].
  rewrite filter_app, remove_first_ai_bubbles
    by (intros [] ?; cbn in *; congruence).
  rewrite !filter_app, !length_app. cbn. lia.
Qed.

Lemma C1_failure_path_witness :
  trim "Hi" <> "" /\
  error_of None (NetworkError "x") = Some key_missing_message /\
  messages (submit None (fun _ => NetworkError "x") "Hi" init_state)
  = pre_messages init_state (trim "Hi").
Proof.
  split; [discriminate|]. split; [reflexivity|].
  apply (C1_failure_path None (fun _ => NetworkError "x") "Hi" init_state
           key_missing_message); [discriminate|reflexivity].
Defined.

(** C2.  An input that is empty after trimming leaves the page as it is:
    no turn is pushed, no request is sent. *)
Theorem C2_empty_input_noop (key : option string) net v s :
  trim v = "" ->
  submit key net v s = set_inputValue v s /\
  messages (submit key net v s) = messages s /\
  sent (submit key net v s) = sent s.
Proof.
  intros H. rewrite submit_empty by exact H. repeat split.
Qed.

Lemma C2_empty_input_noop_witness :
  trim (nbsp ++ " ")%string = "" /\
  messages (submit (Some "sk") (reply_with "x") (nbsp ++ " ")%string init_state)
  = messages init_state.
Proof.
  split; [reflexivity|].
  apply (C2_empty_input_noop (Some "sk") (reply_with "x") (nbsp ++ " ")%string init_state).
  reflexivity.
Defined.

(** C3.  When the name heuristic matches the trimmed input, exactly one
    system turn ["User's name is X."] is pushed, immediately followed by
    the user turn; nothing pushed after them is a system turn. *)
Theorem C3_name_note_before_user (key : option string) net v s n :
  nameMatch (trim v) = Some n ->
  exists rest,
    messages (submit key net v s)
    = messages s ++ [mkTurn "system" ("User's name is " ++ n ++ ".");
                     mkTurn "user" (trim v)] ++ rest /\
    Forall (fun t => role t <> "system") rest.
Proof.
  intros Hn.
  assert (Hne : trim v <> "").
  { intros E. rewrite E, nameMatch_empty in Hn. discriminate. }
  destruct (submit_appends key net v s) as [[E _]|[tail [_ [Hm Ht]]]].
  - contradiction.
  - exists tail. rewrite Hm. unfold pre_messages, name_turns. rewrite Hn.
    split; [rewrite <- !app_assoc; reflexivity|].
    destruct Ht as [->|[c [_ ->]]]; repeat constructor.
    cbn. discriminate.
Qed.

Lemma C3_name_note_before_user_witness :
  exists rest,
    messages (submit (Some "sk") (reply_with "Try a gentle shampoo.")
                "My name is Alex, what shampoo should I use?" init_state)
    = messages init_state
      ++ [mkTurn "system" ("User's name is " ++ "Alex" ++ ".");
          mkTurn "user" (trim "My name is Alex, what shampoo should I use?")] ++ rest /\
    Forall (fun t => role t <> "system") rest.
Proof.
  apply (C3_name_note_before_user (Some "sk") (reply_with "Try a gentle shampoo.")
           "My name is Alex, what shampoo should I use?" init_state "Alex").
  reflexivity.
Defined.

(** C4 (code_bug).  The group [([A-Z][a-z]+)] is meant to require a
    capitalised name, but the [i] flag applies to the whole regex, so a
    lower-case word after the phrase is captured and recorded as the name. *)
Theorem C4_lowercase_name_recorded :
  nameMatch "my name is bob" = Some "bob" /\
  In (mkTurn "system" "User's name is bob.")
     (messages (submit None (fun _ => NetworkError "x") "my name is bob" init_state)) /\
  nameMatch "I am going to buy shampoo" = Some "going" /\
  In (mkTurn "system" "User's name is going.")
     (messages (submit None (fun _ => NetworkError "x") "I am going to buy shampoo" init_state)).
Proof.
  split; [reflexivity|]. split.
  { change (In (mkTurn "system" "User's name is bob.")
              (messages init_state ++ [mkTurn "system" "User's name is bob.";
                                       mkTurn "user" "my name is bob"])).
    apply in_or_app. right. left. reflexivity. }
  split; [reflexivity|].
  change (In (mkTurn "system" "User's name is going.")
            (messages init_state ++ [mkTurn "system" "User's name is going.";
                                     mkTurn "user" "I am going to buy shampoo"])).
  apply in_or_app. right. left. reflexivity.
Qed.

(** C5.  With no key, a non-empty submission sends no request; the user turn
    is pushed and the missing-key error is shown as the last bubble. *)
Theorem C5_missing_key_no_request (key : option string) net v s :
  trim v <> "" ->
  OPENAI_KEY_PRESENT key = false ->
  sent (submit key net v s) = sent s /\
  messages (submit key net v s) = pre_messages s (trim v) /\
  (exists w, chatWindow (submit key net v s)
             = w ++ [Bubble "ai" None ("Error: " ++ key_missing_message)]).
Proof.
  intros Hne Hk. rewrite submit_cycle by exact Hne. cbv zeta.
  assert (He : forall r, error_of key r = Some key_missing_message)
    by (intros r; unfold error_of; rewrite Hk; reflexivity).
  rewrite He, Hk.
  cbn [messages chatWindow sent set_inputDisabled set_chatWindow pre_state].
  split; [reflexivity|]. split; [reflexivity|]. eexists; reflexivity.
Qed.

Lemma C5_missing_key_no_request_witness :
  sent (submit None (reply_with "x") "Hi" init_state) = sent init_state.
Proof.
  apply (C5_missing_key_no_request None (reply_with "x") "Hi" init_state);
    [discriminate|reflexivity].
Defined.

Lemma str_append_nil_r (x : string) : (x ++ "")%string = x.
Proof. induction x as [|c x IH]; cbn; [reflexivity|now rewrite IH]. Qed.

Lemma str_append_assoc (x y z : string) :
  (x ++ (y ++ z))%string = ((x ++ y) ++ z)%string.
Proof. induction x as [|c x IH]; cbn; [reflexivity|now rewrite IH]. Qed.

(** C6.  A non-success status yields an error bubble whose text contains the
    decimal status code and the response body text. *)
Theorem C6_status_error_text (key : option string) net v s status body j :
  trim v <> "" ->
  OPENAI_KEY_PRESENT key = true ->
  net (make_request key (pre_messages s (trim v))) = Response status body j ->
  resp_ok status = false ->
  exists w m,
    chatWindow (submit key net v s) = w ++ [Bubble "ai" None m] /\
    substring (Z_to_string status) m /\ substring body m.
Proof.
  intros Hne Hk Hnet Hok. rewrite submit_cycle by exact Hne. cbv zeta.
  rewrite Hnet. unfold error_of. rewrite Hk, Hok. cbn [negb].
  cbn [chatWindow set_inputDisabled set_chatWindow].
  eexists. exists ("Error: " ++ ("API error: " ++ Z_to_string status ++ " " ++ body))%string.
  split; [reflexivity|]. split.
  - exists "Error: API error: ", (" " ++ body)%string. reflexivity.
  - exists ("Error: API error: " ++ Z_to_string status ++ " ")%string, "".
    rewrite str_append_nil_r, <- !str_append_assoc. reflexivity.
Qed.

Lemma C6_status_error_text_witness :
  exists w m,
    chatWindow (submit (Some "sk") (fun _ => Response 500 "server error" (JsonValue None))
                  "Hi" init_state) = w ++ [Bubble "ai" None m] /\
    substring (Z_to_string 500) m /\ substring "server error" m.
Proof.
  apply (C6_status_error_text (Some "sk") (fun _ => Response 500 "server error" (JsonValue None))
           "Hi" init_state 500 "server error" (JsonValue None));
    [discriminate|reflexivity|reflexivity|reflexivity].
Defined.

Lemma submit_prefix (key : option string) net v s :
  exists added, messages (submit key net v s) = messages s ++ added.
Proof.
  destruct (submit_appends key net v s) as [[_ E]|[tail [_ [Hm _]]]].
  - exists []. rewrite E, app_nil_r. reflexivity.
  - exists (name_turns (trim v) ++ [mkTurn "user" (trim v)] ++ tail).
    rewrite Hm. unfold pre_messages. rewrite <- !app_assoc. reflexivity.
Qed.

Lemma reachable_head s :
  reachable s -> exists rest, messages s = mkTurn "system" SYSTEM_PROMPT :: rest.
Proof.
  induction 1 as [|key net v s _ [rest IH]].
  - eexists. reflexivity.
  - destruct (submit_prefix key net v s) as [added E].
    exists (rest ++ added). rewrite E, IH. reflexivity.
Qed.

(** C7.  In every reachable state the first turn is the system prompt, and
    every submission leaves the existing turns in place and only appends. *)
Theorem C7_transcript_append_only s :
  reachable s ->
  (exists rest, messages s = mkTurn "system" SYSTEM_PROMPT :: rest) /\
  forall (key : option string) net v,
    exists added, messages (submit key net v s) = messages s ++ added.
Proof.
  intros R. split; [exact (reachable_head s R)|].
  intros key net v. apply submit_prefix.
Qed.

Lemma C7_transcript_append_only_witness :
  exists rest, messages (submit (Some "sk") (reply_with "Hi there!") "Hello" init_state)
               = mkTurn "system" SYSTEM_PROMPT :: rest.
Proof.
  apply (C7_transcript_append_only
           (submit (Some "sk") (reply_with "Hi there!") "Hello" init_state)).
  apply reachable_submit. apply reachable_init.
Defined.

Lemma submit_enabled (key : option string) net v s :
  inputDisabled s = false -> inputDisabled (submit key net v s) = false.
Proof.
  intros H. destruct (String.eqb (trim v) "") eqn:E.
  - apply String.eqb_eq in E. rewrite submit_empty by exact E. exact H.
  - apply String.eqb_neq in E. rewrite submit_cycle by exact E. cbv zeta.
    destruct (error_of _ _); reflexivity.
Qed.

(** C8.  From any reachable state, every submission, whatever its outcome,
    ends with the input enabled. *)
Theorem C8_idle_after_cycle s :
  reachable s ->
  forall (key : option string) net v, inputDisabled (submit key net v s) = false.
Proof.
  intros R key net v. apply submit_enabled.
  induction R as [|key' net' v' s' _ IH]; [reflexivity|].
  apply submit_enabled, IH.
Qed.

Lemma C8_idle_after_cycle_witness :
  inputDisabled (submit None (fun _ => NetworkError "x") "Hi" init_state) = false.
Proof.
  apply (C8_idle_after_cycle init_state reachable_init).
Defined.

(** C9.  With the key present, a non-empty submission sends exactly one POST
    request carrying ["gpt-4o"], the whole [messages] array as it is right
    after the user turn is pushed, and [max_tokens = 600]. *)
Theorem C9_single_request (key : option string) net v s :
  trim v <> "" ->
  OPENAI_KEY_PRESENT key = true ->
  exists r,
    sent (submit key net v s) = sent s ++ [r] /\
    req_url r = API_URL /\
    req_method r = "POST" /\
    req_model r = "gpt-4o" /\
    req_messages r = pre_messages s (trim v) /\
    req_max_tokens r = 600%Z.
Proof.
  intros Hne Hk. rewrite submit_cycle by exact Hne. cbv zeta. rewrite Hk.
  exists (make_request key (pre_messages s (trim v))).
  split; [|repeat split].
  destruct (error_of _ _); reflexivity.
Qed.

Lemma C9_single_request_witness :
  exists r,
    sent (submit (Some "sk") (reply_with "Hi there!") "Hello" init_state)
    = sent init_state ++ [r] /\
    req_url r = API_URL /\ req_method r = "POST" /\ req_model r = "gpt-4o" /\
    req_messages r = pre_messages init_state (trim "Hello") /\
    req_max_tokens r = 600%Z.
Proof.
  apply (C9_single_request (Some "sk") (reply_with "Hi there!") "Hello" init_state);
    [discriminate|reflexivity].
Defined.

(** C10.  A successful response whose content is missing, [null] or [""]
    takes the failure path: no assistant turn is pushed and the no-content
    error is shown.  Consequently no submission ever pushes an assistant
    turn with empty content. *)
Theorem C10_empty_content_fails (key : option string) net v s status t d :
  trim v <> "" ->
  OPENAI_KEY_PRESENT key = true ->
  net (make_request key (pre_messages s (trim v))) = Response status t (JsonValue d) ->
  resp_ok status = true ->
  falsy (aiContent d) = true ->
  messages (submit key net v s) = pre_messages s (trim v) /\
  (exists w, chatWindow (submit key net v s)
             = w ++ [Bubble "ai" None ("Error: " ++ no_content_message)]) /\
  (forall (key' : option string) net' v' s',
     exists added, messages (submit key' net' v' s') = messages s' ++ added /\
                   ~ In (mkTurn "assistant" "") added).
Proof.
  intros Hne Hk Hnet Hok Hf. rewrite submit_cycle by exact Hne. cbv zeta.
  rewrite Hnet. unfold error_of. rewrite Hk, Hok. cbn [negb]. rewrite Hf.
  cbn [messages chatWindow set_inputDisabled set_chatWindow set_sent].
  split; [reflexivity|]. split; [eexists; reflexivity|].
  intros key' net' v' s'.
  destruct (submit_appends key' net' v' s') as [[_ E]|[tail [_ [Hm Ht]]]].
  - exists []. rewrite E, app_nil_r. split; [reflexivity|]. intros [].
  - exists (name_turns (trim v') ++ [mkTurn "user" (trim v')] ++ tail).
    split.
    + rewrite Hm. unfold pre_messages. rewrite <- !app_assoc. reflexivity.
    + intros Hin. apply in_app_or in Hin as [Hin|Hin].
      * unfold name_turns in Hin. destruct (nameMatch (trim v')).
        -- destruct Hin as [Hin|[]]. discriminate.
        -- destruct Hin.
      * destruct Hin as [Hin|Hin]; [discriminate|].
        destruct Ht as [->|[c [Hc ->]]]; [destruct Hin|].
        destruct Hin as [Hin|[]]. injection Hin as Hin. congruence.
Qed.

Lemma C10_empty_content_fails_witness :
  messages (submit (Some "sk") (reply_with "") "Hello" init_state)
  = pre_messages init_state (trim "Hello").
Proof.
  apply (C10_empty_content_fails (Some "sk") (reply_with "") "Hello" init_state 200 ""
           (Some (mkData (Some [mkChoice (Some (mkMessage (Some "")))]))));
    reflexivity || discriminate.
Defined.

(** ** Further properties of the handler and its helpers *)

Definition not_thinking (x : item) : bool :=
  match x with Thinking _ => false | _ => true end.

(** The label of the user bubble: the name just captured, else the name
    kept from before, else ["You"]. *)
Definition user_label (s : state) (t : string) : string :=
  match nameMatch t with
  | Some n => n
  | None => match userName s with Some n => n | None => "You" end
  end.

(** The text of the last bubble of a non-empty cycle. *)
Definition final_text (key : option string) (r : fetch_result) : string :=
  match error_of key r with
  | Some msg => "Error: " ++ msg
  | None => reply_of r
  end.

Lemma remove_first_app_skip (p : item -> bool) w l :
  forallb (fun x => negb (p x)) w = true ->
  remove_first p (w ++ l) = w ++ remove_first p l.
Proof.
  induction w as [|x w IH]; cbn; [reflexivity|].
  intros H. apply andb_true_iff in H as [Hx Hw].
  destruct (p x); [discriminate|]. now rewrite IH.
Qed.

Lemma forallb_remove_first (f p : item -> bool) w :
  forallb f w = true -> forallb f (remove_first p w) = true.
Proof.
  induction w as [|x w IH]; cbn; [reflexivity|].
  intros H. apply andb_true_iff in H as [Hx Hw].
  destruct (p x); [exact Hw|]. cbn. now rewrite Hx, IH.
Qed.

Lemma no_thinking_skip id w :
  forallb not_thinking w = true -> forallb (fun x => negb (is_thinking id x)) w = true.
Proof.
  induction w as [|[] w IH]; cbn; try discriminate; auto.
Qed.

Lemma chatWindow_sent_if (key : option string) P r :
  chatWindow (if OPENAI_KEY_PRESENT key then set_sent (sent P ++ [r]) P else P)
  = chatWindow P.
Proof. destruct (OPENAI_KEY_PRESENT key); reflexivity. Qed.

(** The chat window after a non-empty cycle, when it held no thinking
    indicator before: the user bubble, the latest question (replacing the
    previous one), then the reply or error bubble; the indicator is gone. *)
Lemma submit_window (key : option string) net v s :
  trim v <> "" ->
  forallb not_thinking (chatWindow s) = true ->
  chatWindow (submit key net v s) =
  remove_first is_latest_question
    (chatWindow s ++ [Bubble "user" (Some (user_label s (trim v))) (trim v)])
  ++ [LatestQuestion ("Latest question: " ++ trim v);
      Bubble "ai" None (final_text key (net (make_request key (pre_messages s (trim v)))))].
Proof.
  intros Hne Hw. rewrite submit_cycle by exact Hne. cbv zeta.
  unfold final_text, user_label.
  set (W0 := remove_first is_latest_question
               (chatWindow s ++ [Bubble "user" (Some match nameMatch (trim v) with
                  | Some n => n | None => match userName s with Some n => n | None => "You" end
                  end) (trim v)])).
  assert (HW0 : forallb not_thinking W0 = true).
  { apply forallb_remove_first. rewrite forallb_app, Hw. reflexivity. }
  assert (Hrm : remove_first (is_thinking (nextId s))
                  (W0 ++ [LatestQuestion ("Latest question: " ++ trim v); Thinking (nextId s)])
                = W0 ++ [LatestQuestion ("Latest question: " ++ trim v)]).
  { rewrite remove_first_app_skip by (apply no_thinking_skip; exact HW0).
    cbn. rewrite Nat.eqb_refl. reflexivity. }
  destruct (error_of _ _);
    cbn [chatWindow set_inputDisabled set_chatWindow set_messages];
    rewrite chatWindow_sent_if; cbn [pre_state chatWindow];
    replace (match match nameMatch (trim v) with Some n => Some n | None => userName s end
             with Some n => n | None => "You" end)
      with (match nameMatch (trim v) with
            | Some n => n | None => match userName s with Some n => n | None => "You" end
            end) by (destruct (nameMatch (trim v)); reflexivity);
    fold W0; rewrite Hrm, <- app_assoc; reflexivity.
Qed.

Lemma forallb_filter_nil (p : item -> bool) w :
  length (filter p w) = 0 -> filter p w = [].
Proof. destruct (filter p w); [reflexivity|discriminate]. Qed.

Lemma filter_remove_first_single (p : item -> bool) w :
  length (filter p w) <= 1 -> filter p (remove_first p w) = [].
Proof.
  induction w as [|x w IH]; cbn; [reflexivity|].
  destruct (p x) eqn:E; cbn.
  - intros H. apply forallb_filter_nil. lia.
  - rewrite E. exact IH.
Qed.

(** No thinking indicator survives a cycle. *)
Theorem X_no_thinking_left s :
  reachable s -> forallb not_thinking (chatWindow s) = true.
Proof.
  induction 1 as [|key net v s _ IH]; [reflexivity|].
  destruct (String.eqb (trim v) "") eqn:E.
  - apply String.eqb_eq in E. rewrite submit_empty by exact E. exact IH.
  - apply String.eqb_neq in E. rewrite submit_window by assumption.
    rewrite forallb_app, forallb_remove_first; [reflexivity|].
    rewrite forallb_app, IH. reflexivity.
Qed.

Lemma reachable_latest_le1 s :
  reachable s -> length (filter is_latest_question (chatWindow s)) <= 1.
Proof.
  induction 1 as [|key net v s R IH]; [cbn; lia|].
  destruct (String.eqb (trim v) "") eqn:E.
  - apply String.eqb_eq in E. rewrite submit_empty by exact E. exact IH.
  - apply String.eqb_neq in E.
    rewrite submit_window by (try apply X_no_thinking_left; assumption).
    rewrite filter_app, filter_remove_first_single.
    + cbn. lia.
    + rewrite filter_app, length_app. cbn. lia.
Qed.

(** [showLatestQuestion] keeps a single latest-question block: after a
    non-empty submission it is the only one and shows that submission's
    trimmed text. *)
Theorem X_single_latest_question (key : option string) net v s :
  reachable s -> trim v <> "" ->
  filter is_latest_question (chatWindow (submit key net v s))
  = [LatestQuestion ("Latest question: " ++ trim v)].
Proof.
  intros R Hne. rewrite submit_window by (try apply X_no_thinking_left; assumption).
  rewrite filter_app, filter_remove_first_single; [reflexivity|].
  rewrite filter_app, length_app. pose proof (reachable_latest_le1 s R). cbn. lia.
Qed.

Lemma X_single_latest_question_witness :
  filter is_latest_question
    (chatWindow (submit None (fun _ => NetworkError "x") "Second"
                   (submit (Some "sk") (reply_with "Hi there!") "First" init_state)))
  = [LatestQuestion ("Latest question: " ++ trim "Second")].
Proof.
  apply X_single_latest_question; [|discriminate].
  apply reachable_submit, reachable_init.
Defined.

Definition is_user_bubble (x : item) : bool :=
  match x with Bubble c _ _ => String.eqb c "user" | _ => false end.

Definition is_user_turn (t : turn) : bool := String.eqb (role t) "user".

Lemma filter_user_remove_latest w :
  filter is_user_bubble (remove_first is_latest_question w) = filter is_user_bubble w.
Proof.
  induction w as [|x w IH]; cbn; [reflexivity|].
  destruct x; cbn; rewrite ?IH; reflexivity.
Qed.

(** Every user turn pushed to [messages] has exactly one user bubble in
    the chat window, and the other way round. *)
Theorem X_user_bubbles_match_turns s :
  reachable s ->
  length (filter is_user_bubble (chatWindow s))
  = length (filter is_user_turn (messages s)).
Proof.
  induction 1 as [|key net v s R IH]; [reflexivity|].
  destruct (submit_appends key net v s) as [[E Hs]|[tail [E [Hm Ht]]]].
  - rewrite Hs. exact IH.
  - rewrite submit_window by (try apply X_no_thinking_left; assumption).
    rewrite Hm. unfold pre_messages, name_turns.
    rewrite !filter_app, filter_user_remove_latest, !filter_app, !length_app, IH.
    destruct (nameMatch (trim v)); destruct Ht as [->|[c [_ ->]]]; cbn; lia.
Qed.

Lemma X_user_bubbles_match_turns_witness :
  length (filter is_user_bubble
    (chatWindow (submit (Some "sk") (reply_with "Hi there!") "Hello" init_state)))
  = length (filter is_user_turn
    (messages (submit (Some "sk") (reply_with "Hi there!") "Hello" init_state))).
Proof.
  apply X_user_bubbles_match_turns. apply reachable_submit, reachable_init.
Defined.

Lemma X_no_thinking_left_witness :
  forallb not_thinking
    (chatWindow (submit (Some "sk") (reply_with "Hi there!") "Hello" init_state)) = true.
Proof. apply X_no_thinking_left, reachable_submit, reachable_init. Defined.





(** The reply path: when nothing in the [try] block throws, the reply (never
    empty) is pushed as the last assistant turn right after the user turn,
    and shown as the last bubble. *)
Theorem X_success_path (key : option string) net v s :
  trim v <> "" ->
  error_of key (net (make_request key (pre_messages s (trim v)))) = None ->
  let c := reply_of (net (make_request key (pre_messages s (trim v)))) in
  c <> "" /\
  messages (submit key net v s) = pre_messages s (trim v) ++ [mkTurn "assistant" c] /\
  exists w, chatWindow (submit key net v s) = w ++ [Bubble "ai" None c].
Proof.
  intros Hne Herr c. split; [eapply error_of_none_reply; eauto|].
  rewrite submit_cycle by exact Hne. cbv zeta. rewrite Herr.
  cbn [messages chatWindow set_inputDisabled set_chatWindow set_messages].
  rewrite messages_if_sent, chatWindow_sent_if. split; [reflexivity|].
  eexists. reflexivity.
Qed.

Lemma X_success_path_witness :
  messages (submit (Some "sk") (reply_with "Hi there!") "Hello" init_state)
  = pre_messages init_state (trim "Hello") ++ [mkTurn "assistant" "Hi there!"].
Proof.
  apply (X_success_path (Some "sk") (reply_with "Hi there!") "Hello" init_state);
    [discriminate|reflexivity].
Defined.

(** The request carries the key from [secrets.js] as a bearer token. *)
Theorem X_bearer_header (k : string) net v s :
  trim v <> "" -> k <> "" ->
  exists r, sent (submit (Some k) net v s) = sent s ++ [r] /\
            req_authorization r = ("Bearer " ++ k)%string.
Proof.
  intros Hne Hk.
  assert (Hp : OPENAI_KEY_PRESENT (Some k) = true).
  { cbn. apply String.eqb_neq in Hk. now rewrite Hk. }
  rewrite submit_cycle by exact Hne. cbv zeta. rewrite Hp.
  exists (make_request (Some k) (pre_messages s (trim v))).
  split; [|reflexivity]. destruct (error_of _ _); reflexivity.
Qed.

Lemma X_bearer_header_witness :
  exists r, sent (submit (Some "sk-test") (reply_with "ok") "Hello" init_state)
            = sent init_state ++ [r] /\
            req_authorization r = ("Bearer " ++ "sk-test")%string.
Proof. apply X_bearer_header; discriminate. Defined.

Lemma drop_ws_idem l : drop_ws (drop_ws l) = drop_ws l.
Proof.
  induction l as [|c l IH]; cbn; [reflexivity|].
  destruct (is_ws c) eqn:E; [exact IH|]. cbn. now rewrite E.
Qed.

(** [drop_ws] removes a whitespace prefix. *)
Lemma drop_ws_split l :
  exists p, l = p ++ drop_ws l /\ forallb is_ws p = true.
Proof.
  induction l as [|c l [p [Hp Hw]]]; cbn; [exists []; auto|].
  destruct (is_ws c) eqn:E.
  - exists (c :: p). cbn. rewrite E, Hw. split; [now rewrite <- Hp|reflexivity].
  - exists []. auto.
Qed.

Lemma drop_ws_head c l : is_ws c = false -> drop_ws (c :: l) = c :: l.
Proof. intros E. cbn. now rewrite E. Qed.

Lemma trim_chars_idem l : trim_chars (trim_chars l) = trim_chars l.
Proof.
  unfold trim_chars. set (a := drop_ws l).
  assert (Ha : drop_ws a = a) by apply drop_ws_idem.
  set (b := rev (drop_ws (rev a))).
  assert (Hb : drop_ws b = b).
  { destruct (drop_ws_split (rev a)) as [q [Hq _]].
    assert (Hab : a = b ++ rev q).
    { unfold b. rewrite <- rev_app_distr, <- Hq, rev_involutive. reflexivity. }
    assert (Hlen : forall m, length (drop_ws m) <= length m).
    { intros m. induction m as [|d m IH]; cbn; [lia|].
      destruct (is_ws d); cbn; lia. }
    clearbody b. destruct b as [|c b']; [reflexivity|].
    destruct (is_ws c) eqn:E; [|now apply drop_ws_head].
    exfalso. rewrite Hab in Ha. cbn [app drop_ws] in Ha. rewrite E in Ha.
    apply (f_equal (@length uchar)) in Ha.
    specialize (Hlen (b' ++ rev q)). cbn [length] in Ha. lia. }
  rewrite Hb. unfold b. rewrite rev_involutive, drop_ws_idem. reflexivity.
Qed.

(** *** Splitting into characters and joining them back *)

(** A character split: every group is a whole UTF-8 sequence, except that
    the last one may be cut short by the end of the text. *)
Definition full (g : uchar) : bool :=
  match g with b :: _ => Nat.eqb (length g) (utf8_len b) | [] => false end.

Fixpoint chunked (gs : list uchar) : Prop :=
  match gs with
  | [] => True
  | [g] => match g with b :: _ => length g <= utf8_len b | [] => False end
  | g :: gs' => full g = true /\ chunked gs'
  end.

Lemma utf8_len_pos b : 1 <= utf8_len b.
Proof.
  unfold utf8_len. repeat match goal with |- context [if ?c then _ else _] =>
    destruct c end; lia.
Qed.

Lemma chars_aux_nil f : chars_aux f [] = [].
Proof. destruct f; reflexivity. Qed.

Lemma chars_aux_concat gs f :
  chunked gs -> length (concat gs) <= f -> chars_aux f (concat gs) = gs.
Proof.
  revert f. induction gs as [|g gs IH]; intros f Hc Hf.
  - apply chars_aux_nil.
  - destruct g as [|b g']; [destruct gs; [contradiction|destruct Hc; discriminate]|].
    destruct f as [|f]; [cbn in Hf; lia|].
    cbn [concat]. rewrite <- app_comm_cons. cbn [chars_aux].
    destruct gs as [|g2 gs2].
    + cbn [concat] in *. rewrite app_nil_r. cbn in Hc.
      rewrite firstn_all2 by (cbn; lia). rewrite skipn_all2 by (cbn; lia).
      rewrite chars_aux_nil. reflexivity.
    + destruct Hc as [Hfull Hc]. unfold full in Hfull. apply Nat.eqb_eq in Hfull.
      rewrite <- Hfull. change (b :: g' ++ concat (g2 :: gs2))
        with ((b :: g') ++ concat (g2 :: gs2)).
      rewrite firstn_app, firstn_all, Nat.sub_diag, firstn_O, app_nil_r.
      rewrite skipn_app, skipn_all, Nat.sub_diag, skipn_O. cbn [app].
      rewrite IH; [reflexivity|exact Hc|].
      cbn [concat] in Hf |- *. rewrite length_app in Hf. cbn [length] in Hf. lia.
Qed.

Lemma chars_concat gs : chunked gs -> chars (concat gs) = gs.
Proof. intros H. unfold chars. apply chars_aux_concat; [exact H|lia]. Qed.

Lemma chars_aux_chunked f l : length l <= f -> chunked (chars_aux f l).
Proof.
  revert l. induction f as [|f IH]; intros l Hl.
  - destruct l; [exact I|cbn in Hl; lia].
  - destruct l as [|b l']; [exact I|]. cbn [chars_aux].
    pose proof (utf8_len_pos b) as Hk.
    remember (utf8_len b) as k eqn:Ek.
    destruct k as [|k']; [lia|].
    assert (Hrest : chunked (chars_aux f (skipn (S k') (b :: l')))).
    { apply IH. rewrite length_skipn. cbn [length] in Hl |- *. lia. }
    cbn [firstn]. cbn [skipn] in Hrest |- *.
    assert (Hlast : length (b :: firstn k' l') <= utf8_len b).
    { cbn [length]. rewrite length_firstn, <- Ek. lia. }
    destruct (Nat.le_gt_cases k' (length l')) as [Hle|Hgt].
    + destruct (chars_aux f (skipn k' l')) as [|g2 gs2] eqn:E; [exact Hlast|].
      split; [|exact Hrest]. unfold full. apply Nat.eqb_eq.
      cbn [length]. rewrite length_firstn, <- Ek. lia.
    + rewrite skipn_all2 by lia. rewrite chars_aux_nil. exact Hlast.
Qed.

Lemma chunked_chars l : chunked (chars l).
Proof. apply chars_aux_chunked. lia. Qed.

Lemma chunked_tail g gs : chunked (g :: gs) -> chunked gs.
Proof. destruct gs; [intros; exact I|intros [_ H]; exact H]. Qed.

Lemma chunked_suffix p q : chunked (p ++ q) -> chunked q.
Proof. induction p as [|g p IH]; [auto|intros H; apply IH, (chunked_tail g), H]. Qed.

Lemma chunked_prefix p q : chunked (p ++ q) -> chunked p.
Proof.
  induction p as [|g p IH]; [intros; exact I|].
  destruct p as [|g2 p].
  - cbn. destruct q as [|g3 q]; [auto|].
    intros [Hf _]. destruct g as [|b g']; [discriminate|].
    unfold full in Hf. apply Nat.eqb_eq in Hf. cbn [length] in Hf |- *. lia.
  - intros [Hf H]. split; [exact Hf|]. apply IH, H.
Qed.

Lemma chunked_trim_chars l : chunked l -> chunked (trim_chars l).
Proof.
  intros H. unfold trim_chars.
  destruct (drop_ws_split l) as [p [Hp _]].
  assert (H1 : chunked (drop_ws l)) by (apply (chunked_suffix p); now rewrite <- Hp).
  destruct (drop_ws_split (rev (drop_ws l))) as [q [Hq _]].
  apply (chunked_prefix _ (rev q)).
  rewrite <- rev_app_distr, <- Hq, rev_involutive. exact H1.
Qed.

(** [trim] is idempotent. *)
Lemma trim_idem v : trim (trim v) = trim v.
Proof.
  unfold trim. rewrite list_ascii_of_string_of_list_ascii.
  rewrite chars_concat by (apply chunked_trim_chars, chunked_chars).
  rewrite trim_chars_idem. reflexivity.
Qed.

Definition user_turn_ok (t : turn) : Prop :=
  role t = "user" -> trim (content t) = content t /\ content t <> "".

(** Every user turn in [messages] holds trimmed, non-empty text. *)
Theorem X_user_turns_trimmed s :
  reachable s -> Forall user_turn_ok (messages s).
Proof.
  induction 1 as [|key net v s R IH].
  - constructor; [|constructor; [|constructor]];
      unfold user_turn_ok; intros Hr; discriminate Hr.
  - destruct (submit_appends key net v s) as [[E Hs]|[tail [E [Hm Ht]]]].
    + rewrite Hs. exact IH.
    + rewrite Hm. unfold pre_messages. rewrite !Forall_app.
      split; [split; [exact IH|split]|].
      * unfold name_turns. destruct (nameMatch (trim v)); [|constructor].
        constructor; [|constructor]. unfold user_turn_ok; intros Hr; discriminate Hr.
      * constructor; [|constructor]. unfold user_turn_ok; cbn; intros _.
        split; [apply trim_idem|exact E].
      * destruct Ht as [->|[c [_ ->]]]; [constructor|].
        constructor; [|constructor]. unfold user_turn_ok; intros Hr; discriminate Hr.
Qed.

Lemma X_user_turns_trimmed_witness :
  Forall user_turn_ok
    (messages (submit (Some "sk") (reply_with "Hi there!") "  Hello  " init_state)).
Proof. apply X_user_turns_trimmed, reachable_submit, reachable_init. Defined.

Lemma sent_if (key : option string) P r :
  sent (if OPENAI_KEY_PRESENT key then set_sent (sent P ++ [r]) P else P)
  = if OPENAI_KEY_PRESENT key then sent P ++ [r] else sent P.
Proof. destruct (OPENAI_KEY_PRESENT key); reflexivity. Qed.

Lemma submit_sent (key : option string) net v s :
  sent (submit key net v s) = sent s \/
  (trim v <> "" /\
   sent (submit key net v s) = sent s ++ [make_request key (pre_messages s (trim v))]).
Proof.
  destruct (String.eqb (trim v) "") eqn:E.
  - left. apply String.eqb_eq in E. now rewrite submit_empty.
  - apply String.eqb_neq in E. rewrite submit_cycle by exact E. cbv zeta.
    destruct (error_of _ _); cbn [sent set_inputDisabled set_chatWindow set_messages];
      rewrite sent_if; destruct (OPENAI_KEY_PRESENT key); auto.
Qed.

(** Runs of the page that record each submission: the key in effect and
    the text typed. *)
Inductive run : list (option string * string) -> state -> Prop :=
  | run_init : run [] init_state
  | run_submit h s key net v :
      run h s -> run (h ++ [(key, v)]) (submit key net v s).

Lemma run_reachable h s : run h s -> reachable s.
Proof. induction 1; constructor; assumption. Qed.

(** Whether a submission reaches [fetch]: key present, text non-empty. *)
Definition sends (kv : option string * string) : bool :=
  OPENAI_KEY_PRESENT (fst kv) && negb (String.eqb (trim (snd kv)) "").

Lemma submit_sent_exact (key : option string) net v s :
  sent (submit key net v s)
  = sent s ++ (if sends (key, v) then [make_request key (pre_messages s (trim v))] else []).
Proof.
  unfold sends. cbn [fst snd].
  destruct (String.eqb (trim v) "") eqn:E.
  - apply String.eqb_eq in E. rewrite submit_empty by exact E.
    rewrite andb_false_r, app_nil_r. reflexivity.
  - apply String.eqb_neq in E as E'. rewrite submit_cycle by exact E'. cbv zeta.
    rewrite andb_true_r.
    destruct (error_of _ _); cbn [sent set_inputDisabled set_chatWindow set_messages];
      rewrite sent_if; destruct (OPENAI_KEY_PRESENT key); cbn [pre_state sent];
      rewrite ?app_nil_r; reflexivity.
Qed.

Definition last_turn (r : request) : turn := last (req_messages r) (mkTurn "" "").

(** The requests sent along a run are, in order, one per submission that had
    a key and non-empty text; each carries the system prompt first and, last,
    the user turn holding that submission's trimmed text, which is non-empty
    and already trimmed. *)
Theorem X_requests_shape h s :
  run h s ->
  map last_turn (sent s) = map (fun kv => mkTurn "user" (trim (snd kv))) (filter sends h) /\
  Forall (fun r => exists rest u,
            req_messages r = mkTurn "system" SYSTEM_PROMPT :: rest ++ [mkTurn "user" u] /\
            trim u = u /\ u <> "")
         (sent s).
Proof.
  induction 1 as [|h s key net v R [IHm IHf]]; [split; constructor|].
  rewrite submit_sent_exact, filter_app, !map_app. cbn [filter].
  destruct (sends (key, v)) eqn:Es; cbn [map]; rewrite ?app_nil_r.
  2:{ split; [exact IHm|exact IHf]. }
  unfold sends in Es. cbn [fst snd] in Es. apply andb_true_iff in Es as [_ Hne].
  apply negb_true_iff, String.eqb_neq in Hne.
  split.
  - rewrite IHm. f_equal. cbn [map]. f_equal.
    unfold last_turn. cbn [make_request req_messages]. unfold pre_messages.
    rewrite app_assoc. apply last_last.
  - apply Forall_app. split; [exact IHf|]. constructor; [|constructor].
    destruct (reachable_head s (run_reachable h s R)) as [rest Hr].
    exists (rest ++ name_turns (trim v)), (trim v). cbn [make_request req_messages].
    unfold pre_messages. rewrite Hr. cbn [app]. rewrite <- app_assoc.
    split; [reflexivity|]. split; [apply trim_idem|exact Hne].
Qed.

Lemma X_requests_shape_witness :
  map last_turn (sent (submit (Some "sk") (reply_with "Hi there!") (nbsp ++ "Hello ")
                         (submit None (reply_with "x") "Hi" init_state)))
  = map (fun kv => mkTurn "user" (trim (snd kv)))
        (filter sends [(None, "Hi"); (Some "sk", (nbsp ++ "Hello ")%string)]).
Proof.
  apply (X_requests_shape [(None, "Hi"); (Some "sk", (nbsp ++ "Hello ")%string)]).
  apply (run_submit [(None, "Hi")]).
  apply (run_submit [] init_state None (reply_with "x") "Hi").
  apply run_init.
Defined.

(** *** What the name regex captures *)

Definition is_ascii_letter (c : ascii) : bool :=
  let n := code c in ((65 <=? n) && (n <=? 90))%nat || ((97 <=? n) && (n <=? 122))%nat.

Lemma class_A_Z_letter ch :
  class_A_Z ch = true -> exists c, ch = [c] /\ is_ascii_letter c = true.
Proof.
  destruct ch as [|c [|d t]]; try discriminate. intros H. exists c. split; [reflexivity|].
  revert H. destruct c as [[] [] [] [] [] [] [] []]; vm_compute; intros H;
    first [reflexivity | discriminate H].
Qed.

Lemma class_a_z_letter ch :
  class_a_z ch = true -> exists c, ch = [c] /\ is_ascii_letter c = true.
Proof.
  destruct ch as [|c [|d t]]; try discriminate. intros H. exists c. split; [reflexivity|].
  revert H. destruct c as [[] [] [] [] [] [] [] []]; vm_compute; intros H;
    first [reflexivity | discriminate H].
Qed.

Section MatcherFacts.
Context {A : Type}.

Lemma lit_ci_inv p prev l (k : option uchar -> list uchar -> option A) r :
  lit_ci p prev l k = Some r ->
  exists prev' pre l', k prev' l' = Some r /\ l = pre ++ l'.
Proof.
  revert prev l. induction p as [|x p IH]; intros prev l H.
  - exists prev, [], l. auto.
  - destruct l as [|c l]; cbn in H; [discriminate|].
    destruct (char_eq_ci x c); [|discriminate].
    destruct (IH _ _ H) as [prev' [pre [l' [Hk ->]]]].
    exists prev', (c :: pre), l'. auto.
Qed.

Lemma star_inv cls acc prev l
  (k : list uchar -> option uchar -> list uchar -> option A) r :
  star cls acc prev l k = Some r ->
  exists acc' prev' pre l',
    forallb cls acc' = true /\ k (acc ++ acc') prev' l' = Some r /\ l = pre ++ l'.
Proof.
  revert acc prev. induction l as [|c l IH]; intros acc prev H; cbn in H.
  - exists [], prev, [], []. rewrite app_nil_r. auto.
  - destruct (cls c) eqn:Ec.
    + destruct (star cls (acc ++ [c]) (Some c) l k) as [r'|] eqn:Es.
      * injection H as ->.
        destruct (IH _ _ Es) as [acc' [prev' [pre [l' [Hf [Hk ->]]]]]].
        exists (c :: acc'), prev', (c :: pre), l'. cbn. rewrite Ec, Hf.
        rewrite <- app_assoc in Hk. auto.
      * exists [], prev, [], (c :: l). rewrite app_nil_r. auto.
    + exists [], prev, [], (c :: l). rewrite app_nil_r. auto.
Qed.

Lemma plus_inv cls prev l
  (k : list uchar -> option uchar -> list uchar -> option A) r :
  plus cls prev l k = Some r ->
  exists c acc' prev' pre l',
    cls c = true /\ forallb cls acc' = true /\
    k (c :: acc') prev' l' = Some r /\ l = c :: pre ++ l'.
Proof.
  unfold plus. destruct l as [|c l]; [discriminate|].
  destruct (cls c) eqn:Ec; [|discriminate]. intros H.
  destruct (star_inv _ _ _ _ _ _ H) as [acc' [prev' [pre [l' [Hf [Hk ->]]]]]].
  exists c, acc', prev', pre, l'. auto.
Qed.

End MatcherFacts.

(** Shape of capture group 1, and a whitespace character in the text. *)
Definition name_shape (n : string) : Prop :=
  exists c rest, n = string_of_list_ascii (concat (c :: rest)) /\ class_A_Z c = true /\
                 rest <> [] /\ forallb class_a_z rest = true.

Definition has_ws (l : list uchar) : Prop := exists w, In w l /\ is_ws w = true.

Lemma after_phrase_inv prev l n :
  after_phrase prev l = Some n -> has_ws l /\ name_shape n.
Proof.
  unfold after_phrase. intros H.
  destruct (plus_inv _ _ _ _ _ H) as [w [acc [p1 [pre [l1 [Hw [_ [Hk ->]]]]]]]].
  split; [exists w; split; [now left|exact Hw]|].
  destruct l1 as [|c l2]; [discriminate|].
  destruct (class_A_Z c) eqn:Ec; [|discriminate].
  destruct (plus_inv _ _ _ _ _ Hk) as [d [rest [p3 [_ [l3 [Hd [Hr [Hk3 _]]]]]]]].
  destruct (word_boundary p3 l3); [|discriminate]. injection Hk3 as <-.
  exists c, (d :: rest). split; [reflexivity|]. split; [exact Ec|].
  split; [discriminate|]. cbn [forallb]. now rewrite Hd, Hr.
Qed.

Lemma has_ws_app pre l : has_ws l -> has_ws (pre ++ l).
Proof. intros [w [Hi Hw]]. exists w. split; [apply in_or_app; now right|exact Hw]. Qed.

Lemma try_alts_inv alts prev l n :
  try_alts alts prev l = Some n -> has_ws l /\ name_shape n.
Proof.
  induction alts as [|a alts IH]; cbn; [discriminate|].
  destruct (lit_ci (list_ascii_of_string a) prev l after_phrase) as [r|] eqn:E.
  - intros H. injection H as <-.
    destruct (lit_ci_inv _ _ _ _ _ E) as [prev' [pre [l' [Hk ->]]]].
    destruct (after_phrase_inv _ _ _ Hk) as [Hw Hs]. split; [|exact Hs].
    now apply has_ws_app.
  - exact IH.
Qed.

Lemma search_inv prev l n : search prev l = Some n -> has_ws l /\ name_shape n.
Proof.
  revert prev. induction l as [|c l IH]; intros prev; cbn;
    unfold match_at; destruct (word_boundary _ _);
    try (destruct (try_alts alternatives _ _) eqn:E;
         [intros H; injection H as <-; now apply try_alts_inv with (alts := alternatives) (prev := prev)|]);
    try discriminate.
  all: intros H; destruct (IH _ H) as [Hw Hs]; split; [|exact Hs];
       now apply (has_ws_app [c]).
Qed.

Lemma string_length_of_list l : String.length (string_of_list_ascii l) = List.length l.
Proof. induction l as [|c l IH]; cbn; [reflexivity|now rewrite IH]. Qed.

Lemma concat_letters rest :
  forallb class_a_z rest = true ->
  List.length (concat rest) = List.length rest /\
  forallb is_ascii_letter (concat rest) = true.
Proof.
  induction rest as [|ch rest IH]; [auto|].
  cbn [forallb]. intros H. apply andb_true_iff in H as [Hc Hr].
  destruct (class_a_z_letter ch Hc) as [c [-> Hl]].
  destruct (IH Hr) as [IHl IHf]. cbn [concat app length forallb].
  rewrite Hl, IHf. split; [lia|reflexivity].
Qed.

(** The name the heuristic records is made of ASCII letters only and has at
    least two of them. *)
Theorem X_captured_name_letters (t n : string) :
  nameMatch t = Some n ->
  2 <= String.length n /\ forallb is_ascii_letter (list_ascii_of_string n) = true.
Proof.
  unfold nameMatch. intros H.
  destruct (search_inv _ _ _ H) as [_ [ch [rest [-> [Hc [Hr Hf]]]]]].
  destruct (class_A_Z_letter ch Hc) as [c [-> Hl]].
  destruct (concat_letters rest Hf) as [Hlen Hlet].
  rewrite string_length_of_list, list_ascii_of_string_of_list_ascii.
  cbn [concat app length forallb]. rewrite Hl, Hlet. split; [|reflexivity].
  destruct rest; [now destruct Hr|]. cbn [length] in Hlen. lia.
Qed.

Lemma X_captured_name_letters_witness :
  2 <= String.length "Alex" /\
  forallb is_ascii_letter (list_ascii_of_string "Alex") = true.
Proof.
  apply (X_captured_name_letters "My name is Alex, what shampoo should I use?").
  reflexivity.
Defined.

(** No name is ever taken from a text without a whitespace character (in
    the sense of [\s], Unicode spaces included): [\s+] must follow the
    phrase. *)
Theorem X_no_name_without_space (t : string) :
  forallb (fun ch => negb (is_ws ch)) (chars (list_ascii_of_string t)) = true ->
  nameMatch t = None.
Proof.
  intros Ht. unfold nameMatch.
  destruct (search None (chars (list_ascii_of_string t))) eqn:E; [|reflexivity].
  exfalso. destruct (search_inv _ _ _ E) as [[w [Hi Hw]] _].
  rewrite forallb_forall in Ht. specialize (Ht w Hi). rewrite Hw in Ht. discriminate.
Qed.

Lemma X_no_name_without_space_witness : nameMatch "I'm,Alex" = None.
Proof. apply X_no_name_without_space. reflexivity. Defined.
